(** * dmsg: frame codec, dial requests, stream ids, port manager and
      transport manager

    A shallow embedding of [types.go], [port_manager.go] and the
    [Manager] of package [transport].  The first part holds the
    definitions, the second part the lemmas and theorems about them.

    Conventions.
    - Go's fixed-width unsigned integers are [Z] values; every conversion
      that can wrap is written out ([to_byte], [to_uint16]).  The type
      invariants of the arguments are the predicates [is_uint8] and
      [is_uint16].
    - A byte slice is a [list Z].  A run-time panic (index or slice bound
      out of range) is [None] in the [option] monad.
    - Lengths and indices are [nat]. *)

From stdpp Require Import base option list strings pretty gmap fin_maps.
From Stdlib Require Import ZArith Lia.

Local Open Scope Z_scope.

(** ** Machine integers *)

Definition is_uint8 (z : Z) : Prop := 0 ≤ z < 256.
Definition is_uint16 (z : Z) : Prop := 0 ≤ z < 65536.

(** [byte(x)] and [uint16(x)]: conversions truncate. *)
Definition to_byte (z : Z) : Z := z `mod` 256.
Definition to_uint16 (z : Z) : Z := z `mod` 65536.

(** [int32] addition, as [atomic.AddInt32] performs it. *)
Definition add_int32 (x d : Z) : Z := (x + d + 2147483648) `mod` 4294967296 - 2147483648.

(** ** Byte slices *)

(** [make([]byte, n)] *)
Definition make (n : nat) : list Z := replicate n 0.

(** [b[i] = v]; panics when [i] is out of range. *)
Definition store (b : list Z) (i : nat) (v : Z) : option (list Z) :=
  if decide (i < length b)%nat then Some (<[i := v]> b) else None.

(** [b[lo:hi]]; panics unless [lo <= hi <= len(b)] (the slices below never
    have spare capacity that is sliced into). *)
Definition slice (b : list Z) (lo hi : nat) : option (list Z) :=
  if decide (lo ≤ hi ≤ length b)%nat then Some (take (hi - lo) (drop lo b)) else None.

(** [b[lo:]] *)
Definition slice_from (b : list Z) (lo : nat) : option (list Z) :=
  slice b lo (length b).

(** A sub-slice aliases its parent: running [g] on [b[lo:hi]] and writing
    the result through gives the new contents of [b]. *)
Definition with_slice (b : list Z) (lo hi : nat)
    (g : list Z → option (list Z)) : option (list Z) :=
  s ← slice b lo hi;
  s' ← g s;
  Some (take lo b ++ s' ++ drop hi b).

(** [copy(dst, src)]: copies [min(len(dst), len(src))] elements. *)
Definition copy (dst src : list Z) : list Z := list_inserts 0 src dst.

(** ** encoding/binary, big endian *)

Module BigEndian.

(** [Uint16(b)]: [_ = b[1]] is the bounds check, then
      [uint16(b[1]) | uint16(b[0])<<8]. *)
Definition Uint16 (b : list Z) : option Z :=
    match b with
    | b0 :: b1 :: _ => Some (Z.lor b1 (to_uint16 (Z.shiftl b0 8)))
    | _ => None
    end.

(** [PutUint16(b, v)]: [b[0] = byte(v >> 8); b[1] = byte(v)]. *)
Definition PutUint16 (b : list Z) (v : Z) : option (list Z) :=
    match b with
    | _ :: _ :: _ =>
        b ← store b 0 (to_byte (Z.shiftr v 8));
        store b 1 (to_byte v)
    | _ => None
    end.

End BigEndian.

(** ** Errors

    The errors of [io], [errors.New], the [writeError] wrapper of
    [types.go], and the [ErrDialReq...] values, which the package declares
    outside [types.go]; only their being distinct matters. *)

Inductive error : Type :=
  | EOF
  | ErrUnexpectedEOF
  | errorString (s : string)                (* errors.New(s) *)
  | writeError (e : error)
  | ErrDialReqInvalidSrcPK
  | ErrDialReqInvalidDstPK
  | ErrDialReqInvalidSrcPort
  | ErrDialReqInvalidDstPort
  | ErrDialReqInvalidTimestamp
  | ErrDialReqInvalidSig.

(** ** Frames *)

Definition maxFwdPayLen : Z := 65535.
Definition headerLen : nat := 5.

Definition FrameType := Z.

Definition OkType : FrameType := 0x0.
Definition RequestType : FrameType := 0x1.
Definition AcceptType : FrameType := 0x2.
Definition CloseType : FrameType := 0x3.
Definition FwdType : FrameType := 0xa.
Definition AckType : FrameType := 0xb.

(** A composite literal with keys, [[]string{k1: v1, ...}]: its length is
    the largest key plus one and the elements without a key are zero. *)
Definition keyed_literal (kvs : list (Z * string)) : list string :=
  foldl (λ acc kv, <[Z.to_nat kv.1 := kv.2]> acc)
        (replicate (S (Z.to_nat (foldr Z.max 0 (fst <$> kvs)))) EmptyString)
        kvs.

Definition names : list string :=
  keyed_literal
    [ (RequestType, "REQUEST"); (AcceptType, "ACCEPT"); (CloseType, "CLOSE");
      (FwdType, "FWD"); (AckType, "ACK"); (OkType, "OK") ]%string.

(** [fmt.Sprintf("UNKNOWN:%d", ft)] *)
Definition sprintf_unknown (ft : FrameType) : string :=
  ("UNKNOWN:" +:+ pretty ft)%string.

Definition FrameType_String (ft : FrameType) : option string :=
  if decide (Z.of_nat (length names) ≤ ft) then Some (sprintf_unknown ft)
  else names !! Z.to_nat ft.

Definition Frame := list Z.

Definition MakeFrame (ft : FrameType) (chID : Z) (pay : list Z) : option Frame :=
  let f := make (headerLen + length pay) in
  f ← store f 0 (to_byte ft);
  f ← with_slice f 1 3 (λ b, BigEndian.PutUint16 b chID);
  f ← with_slice f 3 5 (λ b, BigEndian.PutUint16 b (to_uint16 (Z.of_nat (length pay))));
  with_slice f 5 (length f) (λ b, Some (copy b pay)).

(** The bytes [MakeFrame] produces, header field by header field. *)
Definition frame_bytes (ft : FrameType) (chID : Z) (pay : list Z) : list Z :=
  let n := to_uint16 (Z.of_nat (length pay)) in
  to_byte ft :: to_byte (Z.shiftr chID 8) :: to_byte chID
    :: to_byte (Z.shiftr n 8) :: to_byte n :: pay.

Definition Frame_Type (f : Frame) : option FrameType := f !! 0%nat.

Definition Frame_TpID (f : Frame) : option Z := slice f 1 3 ≫= BigEndian.Uint16.

Definition Frame_PayLen (f : Frame) : option Z := slice f 3 5 ≫= BigEndian.Uint16.

Definition Frame_Pay (f : Frame) : option (list Z) := slice_from f headerLen.

Definition Frame_Disassemble (f : Frame) : option (FrameType * Z * list Z) :=
  ft ← Frame_Type f;
  id ← Frame_TpID f;
  p ← Frame_Pay f;
  Some (ft, id, p).

Record disassembledFrame : Type := mkDF {
  df_Type : FrameType;
  df_TpID : Z;
  df_Pay : list Z
}.

(** The zero value of [disassembledFrame] ([Pay] is the nil slice). *)
Definition df_zero : disassembledFrame := mkDF 0 0 [].

(** ** Readers and writers *)

(** An [io.Reader] over a fixed input: the bytes not yet consumed. *)
Definition Reader := list Z.

(** [io.ReadFull(r, buf)]: fills [buf] completely, or fails with [EOF] when
    nothing could be read and [ErrUnexpectedEOF] after a partial read.  The
    result is the reader, the buffer, the count and the error. *)
Definition ReadFull (r : Reader) (buf : list Z) : Reader * list Z * nat * option error :=
  let n := length buf in
  if decide (n ≤ length r)%nat then (drop n r, take n r, n, None)
  else match r with
       | [] => (r, buf, 0%nat, Some EOF)
       | _ => ([], copy buf r, length r, Some ErrUnexpectedEOF)
       end.

(** [readFrame(r)]: the outer [option] is a panic, the triple is the
    function's named results [(f, df, err)]. *)
Definition readFrame (r : Reader) : option (Reader * (Frame * disassembledFrame * option error)) :=
  let f := make headerLen in
  let '(r, f, _, err) := ReadFull r f in
  match err with
  | Some e => Some (r, (f, df_zero, Some e))
  | None =>
      n ← Frame_PayLen f;
      let f := f ++ make (Z.to_nat n) in
      tail ← slice_from f headerLen;
      let '(r, tail', _, err) := ReadFull r tail in
      let f := take headerLen f ++ tail' in
      match err with
      | Some e => Some (r, (f, df_zero, Some e))
      | None =>
          '(t, id, p) ← Frame_Disassemble f;
          Some (r, (f, mkDF t id p, None))
      end
  end.

(** An [io.Writer]: [Write] returns the new writer state, the count and
    the error. *)
Class Writer (W : Type) := Write : W → list Z → W * nat * option error.

(** The writer that appends to a byte buffer and never fails. *)
Global Instance buffer_Writer : Writer (list Z) :=
  λ w p, (w ++ p, length p, None).

Definition writeFrame `{Writer W} (w : W) (f : Frame) : W * option error :=
  let '(w, _, err) := Write w f in
  match err with
  | Some e => (w, Some (writeError e))
  | None => (w, None)
  end.

Definition writeFwdFrame `{Writer W} (w : W) (id : Z) (p : list Z) : option (W * option error) :=
  f ← MakeFrame FwdType id p; Some (writeFrame w f).

Definition writeAckFrame `{Writer W} (w : W) (id offset : Z) : option (W * option error) :=
  let p := make 2 in
  p ← BigEndian.PutUint16 p offset;
  f ← MakeFrame AckType id p;
  Some (writeFrame w f).

Definition disassembleAckPayload (p : list Z) : option (Z * option error) :=
  if decide (length p ≠ 2%nat) then Some (0, Some (errorString "invalid ACK payload size"))
  else v ← BigEndian.Uint16 p; Some (v, None).

Definition writeCloseFrame `{Writer W} (w : W) (id reason : Z) : option (W * option error) :=
  f ← MakeFrame CloseType id [reason]; Some (writeFrame w f).

(** ** The cipher package and gob encoding

    Package [cipher] and the helper [encodeGob] are not part of the files
    embedded here, so they are parameters.  Keys, signatures and hashes are
    opaque values; only the null check, signing, verification and hashing
    are used.  [encodeGob] serialises a value. *)

Class Cipher : Type := {
  PubKey : Type;
  SecKey : Type;
  Sig : Type;
  SHA256 : Type;
  (** [pk.Null()] *)
  PubKey_Null : PubKey → bool;
  (** [cipher.Sig{}] *)
  Sig_zero : Sig;
  SumSHA256 : list Z → SHA256;
  SignPayload : list Z → SecKey → Sig + error;
  (** [nil] when [sig] is a signature of the payload under [pk] *)
  VerifyPubKeySignedPayload : PubKey → Sig → list Z → option error
}.

Class Gob (A : Type) : Type := encodeGob : A → list Z.

(** ** Dial requests *)

Record SessionDialRequest `{Cipher} : Type := mkSessionDialRequest {
  sdr_Timestamp : Z;
  sdr_SrcPK : PubKey;
  sdr_DstPK : PubKey;
  sdr_Sig : Sig
}.

(** [dr.Sig = sig] *)
Definition sdr_set_Sig `{Cipher} (dr : SessionDialRequest) (sig : Sig) : SessionDialRequest :=
  mkSessionDialRequest _ (sdr_Timestamp dr) (sdr_SrcPK dr) (sdr_DstPK dr) sig.

Definition SessionDialRequest_Sign `{Cipher} `{!Gob SessionDialRequest}
    (dr : SessionDialRequest) (sk : SecKey) : SessionDialRequest * option error :=
  let dr := sdr_set_Sig dr Sig_zero in
  let b := encodeGob dr in
  match SignPayload b sk with
  | inr err => (dr, Some err)
  | inl sig => (sdr_set_Sig dr sig, None)
  end.

Definition SessionDialRequest_Hash `{Cipher} `{!Gob SessionDialRequest}
    (dr : SessionDialRequest) : SHA256 :=
  let dr := sdr_set_Sig dr Sig_zero in
  SumSHA256 (encodeGob dr).

Definition SessionDialRequest_Verify `{Cipher} `{!Gob SessionDialRequest}
    (dr : SessionDialRequest) (lastTimestamp : Z) : option error :=
  if PubKey_Null (sdr_SrcPK dr) then Some ErrDialReqInvalidSrcPK
  else if PubKey_Null (sdr_DstPK dr) then Some ErrDialReqInvalidDstPK
  else if decide (sdr_Timestamp dr ≤ lastTimestamp) then Some ErrDialReqInvalidTimestamp
  else
    let sig := sdr_Sig dr in
    let dr := sdr_set_Sig dr Sig_zero in
    match VerifyPubKeySignedPayload (sdr_SrcPK dr) sig (encodeGob dr) with
    | Some _ => Some ErrDialReqInvalidSig
    | None => None
    end.

Record Addr `{Cipher} : Type := mkAddr {
  addr_PK : PubKey;
  addr_Port : Z
}.

Record StreamDialRequest `{Cipher} : Type := mkStreamDialRequest {
  str_Timestamp : Z;
  str_SrcAddr : Addr;
  str_DstAddr : Addr;
  str_NoiseMsg : list Z;
  str_Sig : Sig
}.

Definition str_set_Sig `{Cipher} (dr : StreamDialRequest) (sig : Sig) : StreamDialRequest :=
  mkStreamDialRequest _ (str_Timestamp dr) (str_SrcAddr dr) (str_DstAddr dr)
    (str_NoiseMsg dr) sig.

Definition StreamDialRequest_Hash `{Cipher} `{!Gob StreamDialRequest}
    (dr : StreamDialRequest) : SHA256 :=
  let dr := str_set_Sig dr Sig_zero in
  SumSHA256 (encodeGob dr).

Definition StreamDialRequest_Verify `{Cipher} `{!Gob StreamDialRequest}
    (dr : StreamDialRequest) (lastTimestamp : Z) : option error :=
  if PubKey_Null (addr_PK (str_SrcAddr dr)) then Some ErrDialReqInvalidSrcPK
  else if decide (addr_Port (str_SrcAddr dr) = 0) then Some ErrDialReqInvalidSrcPort
  else if PubKey_Null (addr_PK (str_DstAddr dr)) then Some ErrDialReqInvalidDstPK
  else if decide (addr_Port (str_DstAddr dr) = 0) then Some ErrDialReqInvalidDstPort
  else if decide (str_Timestamp dr ≤ lastTimestamp) then Some ErrDialReqInvalidTimestamp
  else
    let sig := str_Sig dr in
    let dr := str_set_Sig dr Sig_zero in
    match VerifyPubKeySignedPayload (addr_PK (str_SrcAddr dr)) sig (encodeGob dr) with
    | Some _ => Some ErrDialReqInvalidSig
    | None => None
    end.

(** Two requests that agree on every field other than [Sig]. *)
Definition sdr_same_but_Sig `{Cipher} (a b : SessionDialRequest) : Prop :=
  sdr_Timestamp a = sdr_Timestamp b ∧ sdr_SrcPK a = sdr_SrcPK b ∧ sdr_DstPK a = sdr_DstPK b.

Definition str_same_but_Sig `{Cipher} (a b : StreamDialRequest) : Prop :=
  str_Timestamp a = str_Timestamp b ∧ str_SrcAddr a = str_SrcAddr b
  ∧ str_DstAddr a = str_DstAddr b ∧ str_NoiseMsg a = str_NoiseMsg b.

(** ** Stream ids *)

Definition isInitiatorID (tpID : Z) : bool := bool_decide (tpID `mod` 2 = 0).

(** The entropy source behind [cipher.RandByte], a parameter of [randID]:
    the bytes it will deliver, in order.  [RandByte(n)] takes the next [n];
    [None] when the tape is used up. *)
Definition RandTape := list Z.

Definition RandByte (n : nat) (tape : RandTape) : option (list Z * RandTape) :=
  if decide (n ≤ length tape)%nat then Some (take n tape, drop n tape) else None.

(** The loop of [randID], at most [fuel] draws. *)
Fixpoint randID_loop (fuel : nat) (initiator : bool) (tape : RandTape) : option (Z * RandTape) :=
  match fuel with
  | O => None
  | S fuel =>
      '(b, tape) ← RandByte 2 tape;
      id ← BigEndian.Uint16 b;
      if initiator && bool_decide (id `mod` 2 = 0)
         || negb initiator && bool_decide (id `mod` 2 ≠ 0)
      then Some (id, tape)
      else randID_loop fuel initiator tape
  end.

(** Every draw takes two bytes off the tape, so [length tape] draws are
    never all made: the result is [None] only when the tape is used up. *)
Definition randID (initiator : bool) (tape : RandTape) : option (Z * RandTape) :=
  randID_loop (length tape) initiator tape.

(** The value of a draw of two bytes, and the bytes of a list of draws. *)
Definition draw_value (p : Z * Z) : Z := Z.lor p.2 (to_uint16 (Z.shiftl p.1 8)).
Definition draw_bytes (draws : list (Z * Z)) : RandTape := flat_map (λ p, [p.1; p.2]) draws.

(** ** Port manager *)

Definition firstEphemeralPort : Z := 49152.
Definition lastEphemeralPort : Z := 65535.

(** [*rand.Rand] of [math/rand], a parameter: [Intn(n)] returns a value of
    [[0, n)] for [n > 0] (the only call below has [n = 16383]). *)
Class Rand (R : Type) : Type := {
  Intn : R → Z → Z * R;
  Intn_range : ∀ (r : R) (n : Z), 0 < n → 0 ≤ (Intn r n).1 < n
}.

(** The manager's fields; the lock is not modelled, every operation below
    is one critical section or a sequence of them on one goroutine. *)
Record PortManager (R L : Type) : Type := mkPortManager {
  pm_rand : R;
  pm_listeners : gmap Z L
}.
Global Arguments mkPortManager {R L} _ _.
Global Arguments pm_rand {R L} _.
Global Arguments pm_listeners {R L} _.

(** [l, ok := pm.listeners[port]]; the nil listener is [None]. *)
Definition PortManager_Listener {R L} (pm : PortManager R L) (port : Z) : option L * bool :=
  match pm_listeners pm !! port with
  | Some l => (Some l, true)
  | None => (None, false)
  end.

Definition PortManager_AddListener {R L} (pm : PortManager R L) (l : L) (port : Z)
    : PortManager R L :=
  mkPortManager (pm_rand pm) (<[port := l]> (pm_listeners pm)).

Definition randomEphemeralPort `{Rand R} {L} (pm : PortManager R L) : Z * PortManager R L :=
  let '(n, r) := Intn (pm_rand pm) (lastEphemeralPort - firstEphemeralPort) in
  (to_uint16 (firstEphemeralPort + n), mkPortManager r (pm_listeners pm)).

(** The loop of [NextEmptyEphemeralPort], at most [fuel] draws; [None] when
    all of them hit registered ports. *)
Fixpoint NextEmptyEphemeralPort `{Rand R} {L} (fuel : nat) (pm : PortManager R L)
    : option (Z * PortManager R L) :=
  match fuel with
  | O => None
  | S fuel =>
      let '(port, pm) := randomEphemeralPort pm in
      if (PortManager_Listener pm port).2 then NextEmptyEphemeralPort fuel pm
      else Some (port, pm)
  end.

(** The ports the first [n] draws produce. *)
Fixpoint ephemeral_draws `{Rand R} {L} (n : nat) (pm : PortManager R L) : list Z :=
  match n with
  | O => []
  | S n => let '(port, pm) := randomEphemeralPort pm in port :: ephemeral_draws n pm
  end.


(** ** Transport manager

    [Manager.DeleteTransport], [Manager.dialTransport] and the worker
    [Manager.manageTransport].  One goroutine is followed.  What it calls
    outside these functions (methods of [ManagedTransport], the factory,
    the settlement handshake, the discovery client, the log store, the
    logger) and what other goroutines decide (which case of a [select]
    fires, whether a done channel is closed) is an [Event] answered by the
    environment; a function is a tree of events, [prog]. *)

Module transport.

(** [uuid.UUID], a 128-bit value. *)
Definition UUID := Z.
(** [cipher.PubKey], a byte array. *)
Definition PubKey := list Z.
(** Interface values and pointers are handles. *)
Definition Transport := nat.
Definition Factory := nat.
Definition MTPtr := nat.

Inductive Context : Type :=
  | Background
  | Ctx (n : nat).

Record Entry : Type := mkEntry {
  entry_ID : UUID;
  entry_Edges : PubKey * PubKey;
  entry_Type : string;
  entry_Public : bool
}.

Record Status : Type := mkStatus {
  status_ID : UUID;
  status_IsUp : bool
}.

Record LogEntry : Type := mkLogEntry {
  ReceivedBytes : Z;
  SentBytes : Z
}.

(** The fields of [ManagedTransport] the manager reads and writes. *)
Record ManagedTransport : Type := mkManagedTransport {
  mt_ID : UUID;
  mt_LogEntry : LogEntry
}.

Inductive LogLevel : Type := Info | Warn.

Inductive LogArg : Type :=
  | ArgUUID (id : UUID)
  | ArgErr (e : error)
  | ArgInt (z : Z).

(** The case of the worker's [select] that fires, with the received value. *)
Inductive SelectCase : Type :=
  | CaseDone
  | CaseErr (err : error)
  | CaseReadLog (n : Z)
  | CaseWriteLog (n : Z).

(** [time.Minute] in nanoseconds. *)
Definition Minute : Z := 60000000000.

Inductive Event : Type → Type :=
  (** the [select] of [manageTransport] on the channels of [mTr] *)
  | EvSelect (mTr : MTPtr) : Event SelectCase
  (** [mTr.isClosing()] *)
  | EvMTIsClosing (mTr : MTPtr) : Event bool
  (** [tr.Close()] on a [*ManagedTransport]; the receiver may be nil *)
  | EvMTClose (tr : option MTPtr) : Event (option error)
  (** [mTr.updateTransport(tr)] *)
  | EvMTUpdateTransport (mTr : MTPtr) (tr : Transport) : Event unit
  (** [tm.isClosing()]: is [tm.doneChan] closed? *)
  | EvTmIsClosing : Event bool
  (** [factory.Dial(ctx, remote)] *)
  | EvFactoryDial (factory : Factory) (ctx : Context) (remote : PubKey)
      : Event (Transport + error)
  (** [settlementInitiatorHandshake(public).Do(tm, tr, timeout)] *)
  | EvInitiatorHandshake (public : bool) (tr : Transport) (timeout : Z)
      : Event (Entry + error)
  (** [tr.Close()] on a [Transport] *)
  | EvTransportClose (tr : Transport) : Event (option error)
  (** [tm.config.DiscoveryClient.UpdateStatuses(ctx, statuses...)] *)
  | EvUpdateStatuses (ctx : Context) (statuses : list Status) : Event (option error)
  (** [tm.config.LogStore.Record(id, entry)] *)
  | EvLogStoreRecord (id : UUID) (entry : LogEntry) : Event (option error)
  (** [tm.Logger.Infof] and [tm.Logger.Warnf] *)
  | EvLog (lvl : LogLevel) (fmt : string) (args : list LogArg) : Event unit.

Inductive prog (A : Type) : Type :=
  | Ret (a : A)
  | Panic
  | Vis (X : Type) (e : Event X) (k : X → prog A).
Global Arguments Ret {A} _.
Global Arguments Panic {A}.
Global Arguments Vis {A} _ _ _.

Fixpoint bind {A B : Type} (p : prog A) (f : A → prog B) : prog B :=
  match p with
  | Ret a => f a
  | Panic => Panic
  | Vis X e k => Vis X e (λ x, bind (k x) f)
  end.

Global Instance prog_ret : MRet prog := λ A a, Ret a.
Global Instance prog_bind : MBind prog := λ A B f p, bind p f.

Definition call {X : Type} (e : Event X) : prog X := Vis X e Ret.

(** What the goroutine sees of the manager and of the heap: the
    [transports] map, the counter [mgrQty], and the managed transports
    behind the pointers. *)
Record State : Type := mkState {
  tm_transports : gmap UUID MTPtr;
  tm_mgrQty : Z;
  mts : gmap MTPtr ManagedTransport
}.

Definition set_transports (s : State) (m : gmap UUID MTPtr) : State :=
  mkState m (tm_mgrQty s) (mts s).
Definition set_mgrQty (s : State) (q : Z) : State :=
  mkState (tm_transports s) q (mts s).
Definition set_mt (s : State) (p : MTPtr) (m : ManagedTransport) : State :=
  mkState (tm_transports s) (tm_mgrQty s) (<[p := m]> (mts s)).

(** A field access through [mTr]; a pointer to nothing panics. *)
Definition deref (s : State) (mTr : MTPtr) : prog ManagedTransport :=
  match mts s !! mTr with
  | Some m => Ret m
  | None => Panic
  end.

Definition Infof (fmt : string) (args : list LogArg) : prog unit := call (EvLog Info fmt args).
Definition Warnf (fmt : string) (args : list LogArg) : prog unit := call (EvLog Warn fmt args).

(** [Manager.DeleteTransport(id)] *)
Definition DeleteTransport (id : UUID) (s : State) : prog (option error * State) :=
  (* tm.mu.Lock() *)
  let tr : option MTPtr := tm_transports s !! id in
  let s := set_transports s (delete id (tm_transports s)) in
  (* tm.mu.Unlock() *)
  _ ← call (EvMTClose tr);
  r ← call (EvUpdateStatuses Background [mkStatus id false]);
  _ ← match r with
      | Some err => Warnf "Failed to change transport status: %s" [ArgErr err]
      | None => Ret tt
      end;
  _ ← Infof "Unregistered transport %s" [ArgUUID id];
  match tr with
  | Some _ => e ← call (EvMTClose tr); Ret (e, s)
  | None => Ret (None, s)
  end.

(** [Manager.dialTransport(ctx, factory, remote, public)] *)
Definition dialTransport (ctx : Context) (factory : Factory) (remote : PubKey)
    (public : bool) : prog (Transport * Entry + error) :=
  closing ← call EvTmIsClosing;
  if closing : bool
  then Ret (inr (errorString "transport.Manager is closing. Skipping dialling transport"))
  else
    r ← call (EvFactoryDial factory ctx remote);
    match r with
    | inr err => Ret (inr err)
    | inl tr =>
        h ← call (EvInitiatorHandshake public tr Minute);
        match h with
        | inr err => _ ← call (EvTransportClose tr); Ret (inr err)
        | inl entry => Ret (inl (tr, entry))
        end
    end.

(** The body of [case err := <-mTr.errChan] in [manageTransport]. *)
Definition manageTransport_onError (ctx : Context) (mTr : MTPtr) (factory : Factory)
    (remote : PubKey) (public accepted : bool) (err : error) (s : State) : prog State :=
  closing ← call (EvMTIsClosing mTr);
  if negb closing then
    m ← deref s mTr;
    _ ← Infof "Transport %s failed with error: %s. Re-dialing..." [ArgUUID (mt_ID m); ArgErr err];
    if accepted then
      m ← deref s mTr;
      '(e, s) ← DeleteTransport (mt_ID m) s;
      match e with
      | Some err => _ ← Warnf "Failed to delete accepted transport: %s" [ArgErr err]; Ret s
      | None => Ret s
      end
    else
      r ← dialTransport ctx factory remote public;
      match r with
      | inr err =>
          m ← deref s mTr;
          _ ← Infof "Failed to re-dial Transport %s: %s" [ArgUUID (mt_ID m); ArgErr err];
          m ← deref s mTr;
          '(e, s) ← DeleteTransport (mt_ID m) s;
          match e with
          | Some err => _ ← Warnf "Failed to delete re-dialled transport: %s" [ArgErr err]; Ret s
          | None => Ret s
          end
      | inl (tr, _) =>
          m ← deref s mTr;
          _ ← Infof "Updating transport %s" [ArgUUID (mt_ID m)];
          _ ← call (EvMTUpdateTransport mTr tr);
          Ret s
      end
  else
    m ← deref s mTr;
    _ ← Infof "Transport %s is already closing. Skipped error: %s" [ArgUUID (mt_ID m); ArgErr err];
    Ret s.

(** One round of the [for { select { ... } }] of [manageTransport]; the
    boolean tells whether the function returned. *)
Definition manageTransport_round (ctx : Context) (mTr : MTPtr) (factory : Factory)
    (remote : PubKey) (public accepted : bool) (s : State) : prog (bool * State) :=
  c ← call (EvSelect mTr);
  match c with
  | CaseDone =>
      let mgrQty := add_int32 (tm_mgrQty s) (-1) in
      let s := set_mgrQty s mgrQty in
      m ← deref s mTr;
      _ ← Infof "manageTransport exit for %v. mgrQty: %v" [ArgUUID (mt_ID m); ArgInt mgrQty];
      Ret (true, s)
  | CaseErr err =>
      s ← manageTransport_onError ctx mTr factory remote public accepted err s;
      Ret (false, s)
  | CaseReadLog n =>
      m ← deref s mTr;
      let le := mkLogEntry (ReceivedBytes (mt_LogEntry m) + n) (SentBytes (mt_LogEntry m)) in
      let s := set_mt s mTr (mkManagedTransport (mt_ID m) le) in
      r ← call (EvLogStoreRecord (mt_ID m) le);
      match r with
      | Some err => _ ← Warnf "Failed to record log entry: %s" [ArgErr err]; Ret (false, s)
      | None => Ret (false, s)
      end
  | CaseWriteLog n =>
      m ← deref s mTr;
      let le := mkLogEntry (ReceivedBytes (mt_LogEntry m)) (SentBytes (mt_LogEntry m) + n) in
      let s := set_mt s mTr (mkManagedTransport (mt_ID m) le) in
      r ← call (EvLogStoreRecord (mt_ID m) le);
      match r with
      | Some err => _ ← Warnf "Failed to record log entry: %s" [ArgErr err]; Ret (false, s)
      | None => Ret (false, s)
      end
  end.

Fixpoint manageTransport_loop (fuel : nat) (ctx : Context) (mTr : MTPtr) (factory : Factory)
    (remote : PubKey) (public accepted : bool) (s : State) : prog (bool * State) :=
  match fuel with
  | O => Ret (false, s)
  | S fuel =>
      '(returned, s) ← manageTransport_round ctx mTr factory remote public accepted s;
      if returned : bool then Ret (true, s)
      else manageTransport_loop fuel ctx mTr factory remote public accepted s
  end.

(** [Manager.manageTransport], followed for at most [fuel] rounds of its
    loop; the boolean tells whether it returned within them. *)
Definition manageTransport (fuel : nat) (ctx : Context) (mTr : MTPtr) (factory : Factory)
    (remote : PubKey) (public accepted : bool) (s : State) : prog (bool * State) :=
  let mgrQty := add_int32 (tm_mgrQty s) 1 in
  let s := set_mgrQty s mgrQty in
  m ← deref s mTr;
  _ ← Infof "Spawned manageTransport for mTr.ID: %v. mgrQty: %v" [ArgUUID (mt_ID m); ArgInt mgrQty];
  manageTransport_loop fuel ctx mTr factory remote public accepted s.

(** *** Running a program *)

(** An environment answers every event and moves on. *)
Class Env (E : Type) : Type := respond : ∀ X : Type, Event X → E → X * E.

(** An event that was raised, without its answer. *)
Record raised : Type := Raised { raised_X : Type; raised_ev : Event raised_X }.
Global Arguments Raised {_} _.

(** The events a run raises in order, its result ([None] for a panic) and
    the environment it leaves. *)
Fixpoint exec `{Env E} {A : Type} (p : prog A) (env : E) : list raised * option A * E :=
  match p with
  | Ret a => ([], Some a, env)
  | Panic => ([], None, env)
  | Vis X e k =>
      let '(x, env) := respond X e env in
      let '(t, r, env) := exec (k x) env in
      (Raised e :: t, r, env)
  end.

Definition trace_of `{Env E} {A : Type} (p : prog A) (env : E) : list raised := (exec p env).1.1.
Definition result_of `{Env E} {A : Type} (p : prog A) (env : E) : option A := (exec p env).1.2.
Definition env_after `{Env E} {A : Type} (p : prog A) (env : E) : E := (exec p env).2.


Definition is_factory_dial (factory : Factory) (ctx : Context) (remote : PubKey) (c : raised) : Prop :=
  c = Raised (EvFactoryDial factory ctx remote).



(** The receivers of the [ManagedTransport.Close] calls of a trace, in order. *)
Definition mt_closes (t : list raised) : list (option MTPtr) :=
  omap (λ c, match raised_ev c with
             | EvMTClose tr => Some tr
             | _ => None
             end) t.

End transport.


(** ** Concrete instances

    Small instances of the interfaces above, on which the definitions run. *)

Definition sum_bytes (b : list Z) : Z := foldr Z.add 0 b.

(** Keys and signatures are numbers; the signature of [b] under the
    secret key [k] is [k + sum b]; the public key of [k] is [k]. *)
Definition toy_Cipher : Cipher := {|
  PubKey := Z;
  SecKey := Z;
  Sig := Z;
  SHA256 := Z;
  PubKey_Null := λ pk, bool_decide (pk = 0);
  Sig_zero := 0;
  SumSHA256 := sum_bytes;
  SignPayload := λ b sk, inl (sk + sum_bytes b);
  VerifyPubKeySignedPayload := λ pk sig b,
    if decide (sig = pk + sum_bytes b) then None
    else Some (errorString "invalid signature")
|}.

Definition toy_Gob_session : @Gob (@SessionDialRequest toy_Cipher) :=
  λ dr, [@sdr_Timestamp toy_Cipher dr; @sdr_SrcPK toy_Cipher dr;
         @sdr_DstPK toy_Cipher dr; @sdr_Sig toy_Cipher dr].

Definition toy_Gob_stream : @Gob (@StreamDialRequest toy_Cipher) :=
  λ dr, [@str_Timestamp toy_Cipher dr;
         @addr_PK toy_Cipher (@str_SrcAddr toy_Cipher dr);
         @addr_Port toy_Cipher (@str_SrcAddr toy_Cipher dr);
         @addr_PK toy_Cipher (@str_DstAddr toy_Cipher dr);
         @addr_Port toy_Cipher (@str_DstAddr toy_Cipher dr)]
        ++ @str_NoiseMsg toy_Cipher dr ++ [@str_Sig toy_Cipher dr].

(** A linear congruential generator; [Intn] reduces its state. *)
Definition lcg_Rand : Rand Z := {|
  Intn := λ r n, (r `mod` n, (r * 1103515245 + 12345) `mod` 2147483648);
  Intn_range := λ r n Hn, Z.mod_pos_bound r n Hn
|}.

(** An environment with fixed answers; the [select] cases come from a
    list, and [CaseDone] fires when the list is used up. *)
Record script : Type := mkScript {
  sc_select : list transport.SelectCase;
  sc_mt_closing : bool;
  sc_tm_closing : bool;
  sc_dial : transport.Transport + error;
  sc_handshake : transport.Entry + error;
  sc_error : option error
}.

Definition script_respond (X : Type) (e : transport.Event X) (sc : script) : X * script :=
  match e in transport.Event X return X * script with
  | transport.EvSelect _ =>
      match sc_select sc with
      | [] => (transport.CaseDone, sc)
      | c :: cs =>
          (c, mkScript cs (sc_mt_closing sc) (sc_tm_closing sc) (sc_dial sc)
                (sc_handshake sc) (sc_error sc))
      end
  | transport.EvMTIsClosing _ => (sc_mt_closing sc, sc)
  | transport.EvMTClose _ => (sc_error sc, sc)
  | transport.EvMTUpdateTransport _ _ => (tt, sc)
  | transport.EvTmIsClosing => (sc_tm_closing sc, sc)
  | transport.EvFactoryDial _ _ _ => (sc_dial sc, sc)
  | transport.EvInitiatorHandshake _ _ _ => (sc_handshake sc, sc)
  | transport.EvTransportClose _ => (sc_error sc, sc)
  | transport.EvUpdateStatuses _ _ => (sc_error sc, sc)
  | transport.EvLogStoreRecord _ _ => (sc_error sc, sc)
  | transport.EvLog _ _ _ => (tt, sc)
  end.

Definition script_Env : transport.Env script := script_respond.

Definition toy_request (ts src dst sig : Z) : @SessionDialRequest toy_Cipher :=
  @mkSessionDialRequest toy_Cipher ts src dst sig.

Definition toy_stream_request (ts : Z) (msg : list Z) (sig : Z) : @StreamDialRequest toy_Cipher :=
  @mkStreamDialRequest toy_Cipher ts (@mkAddr toy_Cipher 5 80) (@mkAddr toy_Cipher 6 443) msg sig.

(** A manager with one transport, id 42 behind the pointer 1, and an
    environment in which the error channel fires once, nothing is closing
    and the re-dial succeeds with the transport 7. *)
Definition toy_mTr : transport.MTPtr := 1%nat.
Definition toy_factory : transport.Factory := 2%nat.
Definition toy_remote : transport.PubKey := [3].
Definition toy_tr : transport.Transport := 7%nat.
Definition toy_mt : transport.ManagedTransport :=
  transport.mkManagedTransport 42 (transport.mkLogEntry 0 0).

Definition toy_state : transport.State :=
  transport.mkState {[ 42 := toy_mTr ]} 1 {[ toy_mTr := toy_mt ]}.

Definition toy_script : script :=
  mkScript [transport.CaseErr EOF] false false (inl toy_tr)
    (inl (transport.mkEntry 42 ([2], toy_remote) "messaging" true)) None.

(** * Properties *)

(** ** Worked examples of the frame codec *)

Example MakeFrame_S1 :
  MakeFrame FwdType 0x0102 [0x41; 0x42; 0x43]
  = Some [0x0A; 0x01; 0x02; 0x00; 0x03; 0x41; 0x42; 0x43].
Proof. reflexivity. Qed.

Example readFrame_S1 :
  readFrame [0x0A; 0x01; 0x02; 0x00; 0x03; 0x41; 0x42; 0x43; 0x99]
  = Some ([0x99], ([0x0A; 0x01; 0x02; 0x00; 0x03; 0x41; 0x42; 0x43],
                   mkDF FwdType 0x0102 [0x41; 0x42; 0x43], None)).
Proof. reflexivity. Qed.

Example FrameType_String_examples :
  FrameType_String 0 = Some "OK"%string ∧ FrameType_String 5 = Some ""%string
  ∧ FrameType_String 12 = Some "UNKNOWN:12"%string ∧ length names = 12%nat.
Proof. repeat split; reflexivity. Qed.

Example writeAckFrame_S2 :
  writeAckFrame ([] : list Z) 7 0xBEEF = Some ([0x0B; 0; 7; 0; 2; 0xBE; 0xEF], None).
Proof. reflexivity. Qed.

(** ** Big-endian lemmas *)

Lemma lor_shiftl_bytes (hi lo : Z) :
  is_uint8 lo → 0 ≤ hi → Z.lor lo (Z.shiftl hi 8) = hi * 256 + lo.
Proof.
  intros [Hlo0 Hlo1] Hhi.
  rewrite Z.shiftl_mul_pow2 by lia. change (2 ^ 8) with 256.
  rewrite (Z.add_comm (hi * 256)). symmetry. apply Z.add_nocarry_lor.
  apply Z.bits_inj'. intros n Hn. rewrite Z.land_spec, Z.bits_0.
  destruct (decide (n < 8)) as [Hlt|Hge].
  - change 256 with (2 ^ 8). rewrite (Z.mul_pow2_bits_low hi 8 n) by lia.
    apply andb_false_r.
  - rewrite (Z.bits_above_log2 lo n); [done|lia|].
    destruct (decide (lo = 0)) as [->|Hne]; [simpl; lia|].
    apply Z.lt_le_trans with 8; [|lia].
    apply Z.log2_lt_pow2; [lia|]. change (2 ^ 8) with 256. lia.
Qed.

Lemma PutUint16_spec (b0 b1 : Z) (rest : list Z) (v : Z) :
  BigEndian.PutUint16 (b0 :: b1 :: rest) v
  = Some (to_byte (Z.shiftr v 8) :: to_byte v :: rest).
Proof. reflexivity. Qed.

Lemma Uint16_PutUint16 (v : Z) :
  is_uint16 v →
  BigEndian.Uint16 [to_byte (Z.shiftr v 8); to_byte v] = Some v.
Proof.
  intros [Hv0 Hv1]. unfold BigEndian.Uint16, to_byte, to_uint16. f_equal.
  rewrite Z.shiftr_div_pow2 by lia. change (2 ^ 8) with 256.
  assert (Hq : 0 ≤ v `div` 256 < 256).
  { split; [apply Z.div_pos; lia | apply Z.div_lt_upper_bound; lia]. }
  rewrite (Z.mod_small (v `div` 256) 256) by lia.
  rewrite Z.shiftl_mul_pow2 by lia. change (2 ^ 8) with 256.
  rewrite (Z.mod_small (v `div` 256 * 256)) by lia.
  rewrite <- (Z.shiftl_mul_pow2 _ 8) by lia.
  rewrite lor_shiftl_bytes; [|split; [apply Z.mod_pos_bound|apply Z.mod_pos_bound]; lia|lia].
  pose proof (Z.div_mod v 256). lia.
Qed.

(** ** The frame layout *)

Lemma copy_full (dst src : list Z) : length dst = length src → copy dst src = src.
Proof.
  intros Hlen. unfold copy.
  rewrite <- (app_nil_r dst), list_inserts_0_r by done. apply app_nil_r.
Qed.

Lemma store_Some (b : list Z) (i : nat) (v : Z) :
  (i < length b)%nat → store b i v = Some (<[i := v]> b).
Proof. intros Hi. unfold store. by rewrite decide_True. Qed.

Lemma slice_Some (b : list Z) (lo hi : nat) :
  (lo ≤ hi ≤ length b)%nat → slice b lo hi = Some (take (hi - lo) (drop lo b)).
Proof. intros Hb. unfold slice. by rewrite decide_True. Qed.

Lemma with_slice_Some (b : list Z) (lo hi : nat) g (s' : list Z) :
  (lo ≤ hi ≤ length b)%nat →
  g (take (hi - lo) (drop lo b)) = Some s' →
  with_slice b lo hi g = Some (take lo b ++ s' ++ drop hi b).
Proof.
  intros Hb Hg. unfold with_slice. rewrite slice_Some by done.
  cbn [mbind option_bind]. by rewrite Hg.
Qed.

(** [MakeFrame] never panics and lays the frame out as [frame_bytes]. *)
Lemma MakeFrame_bytes (ft : FrameType) (chID : Z) (pay : list Z) :
  MakeFrame ft chID pay = Some (frame_bytes ft chID pay).
Proof.
  unfold MakeFrame, make, headerLen. cbn [Nat.add replicate].
  rewrite store_Some by (cbn [length]; lia).
  cbn [mbind option_bind insert list_insert].
  erewrite with_slice_Some;
    [|cbn [length]; lia|cbn [Nat.sub drop take]; apply PutUint16_spec].
  cbn [mbind option_bind app drop take].
  erewrite with_slice_Some;
    [|cbn [length]; lia|cbn [Nat.sub drop take]; apply PutUint16_spec].
  cbn [mbind option_bind app drop take].
  erewrite with_slice_Some; [|cbn [length]; lia|reflexivity].
  rewrite !take_0, !drop_0. cbn [length app]. rewrite length_replicate.
  replace (S (S (S (S (S (length pay))))) - 5)%nat with (length pay) by lia.
  cbn [take drop app]. rewrite take_0, drop_0. cbn [app].
  rewrite take_ge, drop_ge, app_nil_r by (rewrite length_replicate; lia).
  rewrite copy_full by apply length_replicate. reflexivity.
Qed.

Lemma frame_bytes_length ft chID pay :
  length (frame_bytes ft chID pay) = (5 + length pay)%nat.
Proof. reflexivity. Qed.

Lemma Frame_Type_bytes ft chID pay :
  Frame_Type (frame_bytes ft chID pay) = Some (to_byte ft).
Proof. reflexivity. Qed.

Lemma Frame_TpID_bytes ft chID pay :
  is_uint16 chID → Frame_TpID (frame_bytes ft chID pay) = Some chID.
Proof.
  intros Hid. unfold Frame_TpID, frame_bytes.
  rewrite slice_Some by (cbn [length]; lia).
  cbn [mbind option_bind Nat.sub drop take]. by apply Uint16_PutUint16.
Qed.

Lemma Frame_PayLen_bytes ft chID pay :
  Frame_PayLen (frame_bytes ft chID pay) = Some (to_uint16 (Z.of_nat (length pay))).
Proof.
  unfold Frame_PayLen, frame_bytes.
  rewrite slice_Some by (cbn [length]; lia).
  cbn [mbind option_bind Nat.sub drop take].
  apply Uint16_PutUint16. unfold is_uint16, to_uint16. apply Z.mod_pos_bound. lia.
Qed.

Lemma Frame_Pay_bytes ft chID pay :
  Frame_Pay (frame_bytes ft chID pay) = Some pay.
Proof.
  unfold Frame_Pay, slice_from, frame_bytes, headerLen.
  rewrite slice_Some by (cbn [length]; lia). cbn [length drop].
  replace (S (S (S (S (S (length pay))))) - 5)%nat with (length pay) by lia.
  by rewrite firstn_all.
Qed.

Lemma Frame_Disassemble_bytes ft chID pay :
  is_uint16 chID →
  Frame_Disassemble (frame_bytes ft chID pay) = Some (to_byte ft, chID, pay).
Proof.
  intros Hid. unfold Frame_Disassemble.
  rewrite Frame_Type_bytes, Frame_TpID_bytes, Frame_Pay_bytes by done. reflexivity.
Qed.

(** ** Reading a frame back *)

Lemma ReadFull_enough (r : Reader) (buf : list Z) :
  (length buf ≤ length r)%nat →
  ReadFull r buf = (drop (length buf) r, take (length buf) r, length buf, None).
Proof. intros Hlen. unfold ReadFull. by rewrite decide_True. Qed.

Lemma Frame_TpID_cons (t i1 i2 : Z) (rest : list Z) :
  Frame_TpID (t :: i1 :: i2 :: rest) = BigEndian.Uint16 [i1; i2].
Proof. reflexivity. Qed.

Lemma Frame_PayLen_cons (t i1 i2 l1 l2 : Z) (rest : list Z) :
  Frame_PayLen (t :: i1 :: i2 :: l1 :: l2 :: rest) = BigEndian.Uint16 [l1; l2].
Proof. reflexivity. Qed.

Lemma Frame_Pay_cons (t i1 i2 l1 l2 : Z) (rest : list Z) :
  Frame_Pay (t :: i1 :: i2 :: l1 :: l2 :: rest) = Some rest.
Proof.
  unfold Frame_Pay, slice_from, headerLen.
  rewrite slice_Some by (cbn [length]; lia). cbn [length drop].
  replace (S (S (S (S (S (length rest))))) - 5)%nat with (length rest) by lia.
  by rewrite firstn_all.
Qed.

(** A complete header followed by at least [payLen] bytes is read without
    error; the reader is left after the [payLen] payload bytes. *)
Lemma readFrame_complete (t i1 i2 l1 l2 : Z) (body : list Z) (id n : Z) :
  BigEndian.Uint16 [i1; i2] = Some id →
  BigEndian.Uint16 [l1; l2] = Some n →
  (Z.to_nat n ≤ length body)%nat →
  readFrame (t :: i1 :: i2 :: l1 :: l2 :: body)
  = Some (drop (Z.to_nat n) body,
          (t :: i1 :: i2 :: l1 :: l2 :: take (Z.to_nat n) body,
           mkDF t id (take (Z.to_nat n) body), None)).
Proof.
  intros Hid Hn Hlen. unfold readFrame, headerLen.
  rewrite ReadFull_enough by (cbn [length make replicate]; lia).
  change (length (make 5)) with 5%nat.
  change (take 5 (t :: i1 :: i2 :: l1 :: l2 :: body)) with [t; i1; i2; l1; l2].
  change (drop 5 (t :: i1 :: i2 :: l1 :: l2 :: body)) with body.
  rewrite Frame_PayLen_cons, Hn. cbn [mbind option_bind app].
  change (slice_from (t :: i1 :: i2 :: l1 :: l2 :: make (Z.to_nat n)) 5)
    with (Frame_Pay (t :: i1 :: i2 :: l1 :: l2 :: make (Z.to_nat n))).
  rewrite Frame_Pay_cons. cbn [mbind option_bind].
  rewrite ReadFull_enough by (unfold make; rewrite length_replicate; lia).
  unfold make. rewrite length_replicate.
  change (take 5 (t :: i1 :: i2 :: l1 :: l2 :: replicate (Z.to_nat n) 0))
    with [t; i1; i2; l1; l2].
  cbn [app]. unfold Frame_Disassemble.
  rewrite Frame_TpID_cons, Hid, Frame_Pay_cons. reflexivity.
Qed.

Lemma readFrame_frame_bytes (ft : FrameType) (chID : Z) (pay rest : list Z) :
  is_uint16 chID →
  let k := Z.to_nat (to_uint16 (Z.of_nat (length pay))) in
  readFrame (frame_bytes ft chID pay ++ rest)
  = Some (drop k (pay ++ rest),
          (take (5 + k) (frame_bytes ft chID pay ++ rest),
           mkDF (to_byte ft) chID (take k (pay ++ rest)), None)).
Proof.
  intros Hid k. unfold frame_bytes. cbn [app].
  erewrite readFrame_complete; [reflexivity|by apply Uint16_PutUint16| |].
  - apply Uint16_PutUint16. unfold is_uint16, to_uint16. apply Z.mod_pos_bound. lia.
  - rewrite length_app. pose proof (Z.mod_le (Z.of_nat (length pay)) 65536).
    unfold to_uint16. lia.
Qed.

(** [C1] Frame round-trip.  For a frame type [ft], a stream id [id] and a
    payload of at most 65535 bytes, [MakeFrame] returns a frame of
    [5 + len(payload)] bytes; [readFrame] on a reader that holds exactly
    those bytes returns the frame, the fields [(ft, id, payload)] and no
    error, leaving the reader empty; and [Disassemble] on the frame returns
    [(ft, id, payload)]. *)
Theorem frame_round_trip (ft : FrameType) (id : Z) (pay : list Z) :
  is_uint8 ft → is_uint16 id → Z.of_nat (length pay) ≤ maxFwdPayLen →
  ∃ f : Frame,
    MakeFrame ft id pay = Some f
    ∧ length f = (5 + length pay)%nat
    ∧ readFrame f = Some ([], (f, mkDF ft id pay, None))
    ∧ Frame_Disassemble f = Some (ft, id, pay).
Proof.
  unfold maxFwdPayLen. intros Hft Hid Hlen. exists (frame_bytes ft id pay).
  assert (Hb : to_byte ft = ft) by (apply Z.mod_small; exact Hft).
  assert (Hk : Z.to_nat (to_uint16 (Z.of_nat (length pay))) = length pay).
  { unfold to_uint16. rewrite Z.mod_small by lia. lia. }
  split; [apply MakeFrame_bytes|]. split; [apply frame_bytes_length|]. split.
  - rewrite <- (app_nil_r (frame_bytes ft id pay)) at 1.
    rewrite readFrame_frame_bytes by done. cbv zeta. rewrite Hk, Hb, !app_nil_r.
    rewrite drop_all, firstn_all.
    rewrite take_ge by (rewrite frame_bytes_length; lia). reflexivity.
  - rewrite Frame_Disassemble_bytes by done. by rewrite Hb.
Qed.

Lemma frame_round_trip_witness :
  ∃ f : Frame,
    MakeFrame FwdType 0x0102 [0x41; 0x42; 0x43] = Some f
    ∧ length f = (5 + length [0x41; 0x42; 0x43])%nat
    ∧ readFrame f = Some ([], (f, mkDF FwdType 0x0102 [0x41; 0x42; 0x43], None))
    ∧ Frame_Disassemble f = Some (FwdType, 0x0102, [0x41; 0x42; 0x43]).
Proof.
  apply (frame_round_trip FwdType 0x0102 [0x41; 0x42; 0x43]).
  - unfold is_uint8, FwdType. lia.
  - unfold is_uint16. lia.
  - unfold maxFwdPayLen. simpl. lia.
Defined.

(** [C9] Payloads longer than 65535 bytes.  [MakeFrame] still returns a
    frame of [5 + len(payload)] bytes that holds the whole payload, but the
    header's [payLen] field is [len(payload) mod 2^16]: [PayLen] differs
    from the length of the payload the frame carries, and [readFrame] on
    the frame's bytes returns only the first [payLen] bytes of the payload,
    leaving the rest unread, so encoding then decoding does not give the
    payload back. *)
Theorem MakeFrame_long_payload (ft : FrameType) (id : Z) (pay : list Z) :
  is_uint8 ft → is_uint16 id → maxFwdPayLen < Z.of_nat (length pay) →
  ∃ (f : Frame) (k : nat),
    MakeFrame ft id pay = Some f
    ∧ length f = (5 + length pay)%nat
    ∧ Frame_Pay f = Some pay
    ∧ Z.of_nat k = Z.of_nat (length pay) `mod` 2 ^ 16
    ∧ Frame_PayLen f = Some (Z.of_nat k)
    ∧ Frame_PayLen f ≠ Some (Z.of_nat (length pay))
    ∧ readFrame f = Some (drop k pay, (take (5 + k) f, mkDF ft id (take k pay), None))
    ∧ take k pay ≠ pay
    ∧ drop k pay ≠ [].
Proof.
  unfold maxFwdPayLen. intros Hft Hid Hlen.
  assert (Hb : to_byte ft = ft) by (apply Z.mod_small; exact Hft).
  pose proof (Z.mod_pos_bound (Z.of_nat (length pay)) 65536 eq_refl) as Hmod.
  set (k := Z.to_nat (to_uint16 (Z.of_nat (length pay)))).
  assert (Hk : Z.of_nat k = Z.of_nat (length pay) `mod` 65536).
  { unfold k, to_uint16. lia. }
  assert (Hklt : (k < length pay)%nat) by lia.
  exists (frame_bytes ft id pay), k.
  split; [apply MakeFrame_bytes|]. split; [apply frame_bytes_length|].
  split; [apply Frame_Pay_bytes|]. split; [exact Hk|].
  split; [rewrite Frame_PayLen_bytes, Hk; reflexivity|].
  split; [rewrite Frame_PayLen_bytes; unfold to_uint16; intros [= Heq]; lia|].
  split.
  - rewrite <- (app_nil_r (frame_bytes ft id pay)) at 1.
    rewrite readFrame_frame_bytes by done. cbv zeta. fold k.
    by rewrite Hb, !app_nil_r.
  - split.
    + intros Heq. apply (f_equal length) in Heq. rewrite length_take in Heq. lia.
    + intros Heq. apply (f_equal length) in Heq. rewrite length_drop in Heq.
      simpl in Heq. lia.
Qed.

Lemma MakeFrame_long_payload_witness :
  ∃ (f : Frame) (k : nat),
    MakeFrame FwdType 7 (replicate (Z.to_nat 65536) 0x41) = Some f
    ∧ length f = (5 + length (replicate (Z.to_nat 65536) 0x41))%nat
    ∧ Frame_Pay f = Some (replicate (Z.to_nat 65536) 0x41)
    ∧ Z.of_nat k = Z.of_nat (length (replicate (Z.to_nat 65536) 0x41)) `mod` 2 ^ 16
    ∧ Frame_PayLen f = Some (Z.of_nat k)
    ∧ Frame_PayLen f ≠ Some (Z.of_nat (length (replicate (Z.to_nat 65536) 0x41)))
    ∧ readFrame f
      = Some (drop k (replicate (Z.to_nat 65536) 0x41),
              (take (5 + k) f, mkDF FwdType 7 (take k (replicate (Z.to_nat 65536) 0x41)), None))
    ∧ take k (replicate (Z.to_nat 65536) 0x41) ≠ replicate (Z.to_nat 65536) 0x41
    ∧ drop k (replicate (Z.to_nat 65536) 0x41) ≠ [].
Proof.
  apply (MakeFrame_long_payload FwdType 7 (replicate (Z.to_nat 65536) 0x41)).
  - unfold is_uint8, FwdType. lia.
  - unfold is_uint16. lia.
  - unfold maxFwdPayLen. rewrite length_replicate. lia.
Defined.

(** ** ACK payloads *)

Lemma disassembleAckPayload_two (b0 b1 : Z) :
  is_uint8 b0 → is_uint8 b1 →
  disassembleAckPayload [b0; b1] = Some (b0 * 256 + b1, None).
Proof.
  intros Hb0 Hb1. unfold disassembleAckPayload. cbn [length].
  rewrite decide_False by (intros Hne; by apply Hne).
  cbn [BigEndian.Uint16 mbind option_bind].
  assert (Hsh : to_uint16 (Z.shiftl b0 8) = Z.shiftl b0 8).
  { unfold to_uint16, is_uint8 in *. rewrite Z.shiftl_mul_pow2 by lia.
    change (2 ^ 8) with 256. apply Z.mod_small. lia. }
  rewrite Hsh, lor_shiftl_bytes by (unfold is_uint8 in *; lia). reflexivity.
Qed.

Lemma disassembleAckPayload_bad_size (p : list Z) :
  length p ≠ 2%nat →
  disassembleAckPayload p = Some (0, Some (errorString "invalid ACK payload size")).
Proof. intros Hp. unfold disassembleAckPayload. by rewrite decide_True. Qed.

Lemma uint16_bytes (v : Z) :
  is_uint16 v →
  to_byte (Z.shiftr v 8) = v `div` 256 ∧ to_byte v = v `mod` 256
  ∧ is_uint8 (v `div` 256) ∧ is_uint8 (v `mod` 256)
  ∧ v `div` 256 * 256 + v `mod` 256 = v.
Proof.
  intros [Hv0 Hv1]. unfold to_byte, is_uint8.
  rewrite Z.shiftr_div_pow2 by lia. change (2 ^ 8) with 256.
  assert (Hq : 0 ≤ v `div` 256 < 256).
  { split; [apply Z.div_pos; lia | apply Z.div_lt_upper_bound; lia]. }
  pose proof (Z.mod_pos_bound v 256 eq_refl). pose proof (Z.div_mod v 256).
  rewrite (Z.mod_small (v `div` 256)) by lia. repeat split; lia.
Qed.

(** [C6] ACK payload encoding and decoding.  [writeAckFrame(w, id, offset)]
    hands to the writer exactly one frame: type ACK, stream id [id],
    [payLen] 2 and the two payload bytes [offset / 256], [offset mod 256]
    (big endian); on a byte buffer these seven bytes are appended and no
    error is returned.  [disassembleAckPayload] returns the big-endian
    value and no error on every two-byte payload, returns
    [(0, "invalid ACK payload size")] on a payload of any other length, and
    gives back the offset that [writeAckFrame] wrote. *)
Theorem ack_payload_codec `{Writer W} (w : W) (buf : list Z) (id offset b0 b1 : Z) (p : list Z) :
  is_uint16 id → is_uint16 offset → is_uint8 b0 → is_uint8 b1 → length p ≠ 2%nat →
  let f := [AckType; id `div` 256; id `mod` 256; 0; 2; offset `div` 256; offset `mod` 256] in
  writeAckFrame w id offset = Some (writeFrame w f)
  ∧ writeAckFrame buf id offset = Some (buf ++ f, None)
  ∧ Frame_Disassemble f = Some (AckType, id, [offset `div` 256; offset `mod` 256])
  ∧ Frame_PayLen f = Some 2
  ∧ disassembleAckPayload [offset `div` 256; offset `mod` 256] = Some (offset, None)
  ∧ disassembleAckPayload [b0; b1] = Some (b0 * 256 + b1, None)
  ∧ disassembleAckPayload p = Some (0, Some (errorString "invalid ACK payload size")).
Proof.
  intros Hid Hoff Hb0 Hb1 Hp f.
  destruct (uint16_bytes id Hid) as (Hi1 & Hi2 & Hi3 & Hi4 & Hi5).
  destruct (uint16_bytes offset Hoff) as (Ho1 & Ho2 & Ho3 & Ho4 & Ho5).
  assert (Hmk : ∀ (W' : Type) (HW : Writer W') (w' : W'),
             writeAckFrame w' id offset = Some (writeFrame w' f)).
  { intros W' HW w'. unfold writeAckFrame, make. cbn [replicate].
    rewrite PutUint16_spec. cbn [mbind option_bind].
    rewrite MakeFrame_bytes. cbn [mbind option_bind]. unfold frame_bytes.
    cbn [length]. rewrite Ho1, Ho2, Hi1, Hi2. reflexivity. }
  split; [apply Hmk|]. split; [rewrite Hmk; reflexivity|].
  split.
  { unfold f, Frame_Disassemble. rewrite Frame_TpID_cons, Frame_Pay_cons.
    rewrite <- Hi1, <- Hi2, Uint16_PutUint16 by done. reflexivity. }
  split; [reflexivity|].
  split; [rewrite disassembleAckPayload_two by done; by rewrite Ho5|].
  split; [by apply disassembleAckPayload_two|by apply disassembleAckPayload_bad_size].
Qed.

Lemma ack_payload_codec_witness :
  writeAckFrame ([] : list Z) 7 0xBEEF = Some (writeFrame [] [0x0B; 0; 7; 0; 2; 0xBE; 0xEF])
  ∧ writeAckFrame [0x55] 7 0xBEEF = Some ([0x55; 0x0B; 0; 7; 0; 2; 0xBE; 0xEF], None)
  ∧ Frame_Disassemble [0x0B; 0; 7; 0; 2; 0xBE; 0xEF] = Some (AckType, 7, [0xBE; 0xEF])
  ∧ Frame_PayLen [0x0B; 0; 7; 0; 2; 0xBE; 0xEF] = Some 2
  ∧ disassembleAckPayload [0xBE; 0xEF] = Some (0xBEEF, None)
  ∧ disassembleAckPayload [0x12; 0x34] = Some (0x1234, None)
  ∧ disassembleAckPayload [0xBE] = Some (0, Some (errorString "invalid ACK payload size")).
Proof.
  apply (ack_payload_codec (W := list Z) [] [0x55] 7 0xBEEF 0x12 0x34 [0xBE]);
    unfold is_uint16, is_uint8; simpl; lia.
Defined.

(** ** Frame type names *)

Lemma names_length : length names = 12%nat.
Proof. reflexivity. Qed.

Lemma FrameType_String_in_table (ft : FrameType) :
  0 ≤ ft < 12 →
  ft ∈ [0; 1; 2; 3; 4; 5; 6; 7; 8; 9; 10; 11].
Proof.
  intros Hft. rewrite !elem_of_cons. lia.
Qed.

(** [C10] [FrameType.String] returns the name of each defined type, returns
    ["UNKNOWN:<n>"] for every type value [n ≥ 12] and for no value below 12,
    and returns the empty string for the undefined values 4 to 9, which lie
    inside the name table. *)
Theorem FrameType_String_spec (ft : FrameType) :
  is_uint8 ft →
  (FrameType_String OkType = Some "OK"
   ∧ FrameType_String RequestType = Some "REQUEST"
   ∧ FrameType_String AcceptType = Some "ACCEPT"
   ∧ FrameType_String CloseType = Some "CLOSE"
   ∧ FrameType_String FwdType = Some "FWD"
   ∧ FrameType_String AckType = Some "ACK")%string
  ∧ (12 ≤ ft → FrameType_String ft = Some ("UNKNOWN:" +:+ pretty ft)%string)
  ∧ (ft < 12 → ∃ s, FrameType_String ft = Some s ∧ String.prefix "UNKNOWN:" s = false)
  ∧ (4 ≤ ft ≤ 9 → FrameType_String ft = Some ""%string).
Proof.
  intros [Hft0 Hft1]. split; [repeat split; reflexivity|]. split; [|split].
  - intros Hge. unfold FrameType_String. rewrite names_length.
    by rewrite decide_True by lia.
  - intros Hlt. assert (Hin := FrameType_String_in_table ft (conj Hft0 Hlt)).
    rewrite !elem_of_cons in Hin.
    destruct Hin as [->|[->|[->|[->|[->|[->|[->|[->|[->|[->|[->|[->|Hin]]]]]]]]]]]];
      [eexists; split; [reflexivity|reflexivity]..|].
    by apply elem_of_nil in Hin.
  - intros Hmid. assert (Hin : ft ∈ [4; 5; 6; 7; 8; 9]) by (rewrite !elem_of_cons; lia).
    rewrite !elem_of_cons in Hin.
    destruct Hin as [->|[->|[->|[->|[->|[->|Hin]]]]]]; [reflexivity..|].
    by apply elem_of_nil in Hin.
Qed.

Lemma FrameType_String_spec_witness :
  FrameType_String 200 = Some "UNKNOWN:200"%string
  ∧ FrameType_String 7 = Some ""%string.
Proof.
  split.
  - assert (H200 : is_uint8 200) by (unfold is_uint8; lia).
    destruct (FrameType_String_spec 200 H200) as (_ & Hunk & _).
    apply Hunk. lia.
  - assert (H7 : is_uint8 7) by (unfold is_uint8; lia).
    destruct (FrameType_String_spec 7 H7) as (_ & _ & _ & Hempty).
    apply Hempty. lia.
Defined.

(** ** Dial requests *)

Section dial_requests.
Context `{Cipher} `{!Gob SessionDialRequest} `{!Gob StreamDialRequest}.

(** [C2] [SessionDialRequest.Verify(lastTimestamp)] returns
    [ErrDialReqInvalidSrcPK] when [SrcPK] is null; [ErrDialReqInvalidDstPK]
    when [SrcPK] is not null and [DstPK] is; [ErrDialReqInvalidTimestamp]
    when both keys are non-null and [Timestamp ≤ lastTimestamp], in
    particular when the request is verified against its own timestamp;
    [ErrDialReqInvalidSig] when keys and timestamp pass and the signature
    does not verify under [SrcPK] over the gob encoding of the request with
    [Sig] zeroed; and nil otherwise. *)
Theorem SessionDialRequest_Verify_spec (dr : SessionDialRequest) (lastTimestamp : Z) :
  let signed := encodeGob (sdr_set_Sig dr Sig_zero) in
  (PubKey_Null (sdr_SrcPK dr) = true →
     SessionDialRequest_Verify dr lastTimestamp = Some ErrDialReqInvalidSrcPK)
  ∧ (PubKey_Null (sdr_SrcPK dr) = false → PubKey_Null (sdr_DstPK dr) = true →
     SessionDialRequest_Verify dr lastTimestamp = Some ErrDialReqInvalidDstPK)
  ∧ (PubKey_Null (sdr_SrcPK dr) = false → PubKey_Null (sdr_DstPK dr) = false →
     sdr_Timestamp dr ≤ lastTimestamp →
     SessionDialRequest_Verify dr lastTimestamp = Some ErrDialReqInvalidTimestamp)
  ∧ (PubKey_Null (sdr_SrcPK dr) = false → PubKey_Null (sdr_DstPK dr) = false →
     SessionDialRequest_Verify dr (sdr_Timestamp dr) = Some ErrDialReqInvalidTimestamp)
  ∧ (PubKey_Null (sdr_SrcPK dr) = false → PubKey_Null (sdr_DstPK dr) = false →
     lastTimestamp < sdr_Timestamp dr →
     VerifyPubKeySignedPayload (sdr_SrcPK dr) (sdr_Sig dr) signed ≠ None →
     SessionDialRequest_Verify dr lastTimestamp = Some ErrDialReqInvalidSig)
  ∧ (PubKey_Null (sdr_SrcPK dr) = false → PubKey_Null (sdr_DstPK dr) = false →
     lastTimestamp < sdr_Timestamp dr →
     VerifyPubKeySignedPayload (sdr_SrcPK dr) (sdr_Sig dr) signed = None →
     SessionDialRequest_Verify dr lastTimestamp = None).
Proof.
  intros signed. unfold SessionDialRequest_Verify. repeat split.
  - by intros ->.
  - by intros -> ->.
  - intros -> -> Hts. by rewrite decide_True.
  - intros -> ->. by rewrite decide_True by lia.
  - intros -> -> Hts Hsig. rewrite decide_False by lia. cbn [sdr_set_Sig sdr_SrcPK].
    fold signed. by destruct (VerifyPubKeySignedPayload _ _ signed).
  - intros -> -> Hts Hsig. rewrite decide_False by lia. cbn [sdr_set_Sig sdr_SrcPK].
    fold signed. by rewrite Hsig.
Qed.

(** [C3] [Hash] ignores [Sig]: two [SessionDialRequest]s, and likewise two
    [StreamDialRequest]s, that agree on every field other than [Sig] have
    the same hash, and the hash of a request is the hash of the request with
    [Sig] zeroed. *)
Theorem Hash_ignores_Sig (a b : SessionDialRequest) (c d : StreamDialRequest) :
  sdr_same_but_Sig a b → str_same_but_Sig c d →
  SessionDialRequest_Hash a = SessionDialRequest_Hash b
  ∧ SessionDialRequest_Hash a = SessionDialRequest_Hash (sdr_set_Sig a Sig_zero)
  ∧ SessionDialRequest_Hash a = SumSHA256 (encodeGob (sdr_set_Sig a Sig_zero))
  ∧ StreamDialRequest_Hash c = StreamDialRequest_Hash d
  ∧ StreamDialRequest_Hash c = StreamDialRequest_Hash (str_set_Sig c Sig_zero)
  ∧ StreamDialRequest_Hash c = SumSHA256 (encodeGob (str_set_Sig c Sig_zero)).
Proof.
  intros (Hts & Hsrc & Hdst) (Hts' & Hsrc' & Hdst' & Hmsg').
  unfold SessionDialRequest_Hash, StreamDialRequest_Hash, sdr_set_Sig, str_set_Sig.
  cbn. rewrite Hts, Hsrc, Hdst, Hts', Hsrc', Hdst', Hmsg'. done.
Qed.

End dial_requests.

Lemma SessionDialRequest_Verify_spec_witness :
  @SessionDialRequest_Verify toy_Cipher toy_Gob_session (toy_request 10 0 6 0) 0
    = Some ErrDialReqInvalidSrcPK
  ∧ @SessionDialRequest_Verify toy_Cipher toy_Gob_session (toy_request 10 5 0 0) 0
    = Some ErrDialReqInvalidDstPK
  ∧ @SessionDialRequest_Verify toy_Cipher toy_Gob_session (toy_request 10 5 6 26) 11
    = Some ErrDialReqInvalidTimestamp
  ∧ @SessionDialRequest_Verify toy_Cipher toy_Gob_session (toy_request 10 5 6 26) 10
    = Some ErrDialReqInvalidTimestamp
  ∧ @SessionDialRequest_Verify toy_Cipher toy_Gob_session (toy_request 10 5 6 99) 0
    = Some ErrDialReqInvalidSig
  ∧ @SessionDialRequest_Verify toy_Cipher toy_Gob_session (toy_request 10 5 6 26) 0
    = None.
Proof.
  pose proof (@SessionDialRequest_Verify_spec toy_Cipher toy_Gob_session) as Hspec.
  split; [|split; [|split; [|split; [|split]]]].
  - destruct (Hspec (toy_request 10 0 6 0) 0) as (Hsrc & _). apply Hsrc. reflexivity.
  - destruct (Hspec (toy_request 10 5 0 0) 0) as (_ & Hdst & _). apply Hdst; reflexivity.
  - destruct (Hspec (toy_request 10 5 6 26) 11) as (_ & _ & Hts & _).
    apply Hts; [reflexivity|reflexivity|simpl; lia].
  - destruct (Hspec (toy_request 10 5 6 26) 0) as (_ & _ & _ & Hreplay & _).
    apply Hreplay; reflexivity.
  - destruct (Hspec (toy_request 10 5 6 99) 0) as (_ & _ & _ & _ & Hsig & _).
    apply Hsig; [reflexivity|reflexivity|simpl; lia|vm_compute; discriminate].
  - destruct (Hspec (toy_request 10 5 6 26) 0) as (_ & _ & _ & _ & _ & Hok).
    apply Hok; [reflexivity|reflexivity|simpl; lia|reflexivity].
Defined.

Lemma Hash_ignores_Sig_witness :
  @SessionDialRequest_Hash toy_Cipher toy_Gob_session (toy_request 10 5 6 26)
    = @SessionDialRequest_Hash toy_Cipher toy_Gob_session (toy_request 10 5 6 77)
  ∧ @StreamDialRequest_Hash toy_Cipher toy_Gob_stream (toy_stream_request 10 [1; 2] 26)
    = @StreamDialRequest_Hash toy_Cipher toy_Gob_stream (toy_stream_request 10 [1; 2] 77).
Proof.
  destruct (@Hash_ignores_Sig toy_Cipher toy_Gob_session toy_Gob_stream
              (toy_request 10 5 6 26) (toy_request 10 5 6 77)
              (toy_stream_request 10 [1; 2] 26) (toy_stream_request 10 [1; 2] 77))
    as (Hs & _ & _ & Ht & _).
  - unfold sdr_same_but_Sig. simpl. tauto.
  - unfold str_same_but_Sig. simpl. tauto.
  - split; [exact Hs|exact Ht].
Defined.

(** ** Stream ids *)

Lemma isInitiatorID_spec (id : Z) : isInitiatorID id = true ↔ id `mod` 2 = 0.
Proof. unfold isInitiatorID. apply bool_decide_eq_true. Qed.

Lemma randID_loop_parity (fuel : nat) (initiator : bool) (tape rest : RandTape) (id : Z) :
  randID_loop fuel initiator tape = Some (id, rest) →
  id `mod` 2 = (if initiator then 0 else 1).
Proof.
  revert tape. induction fuel as [|fuel IH]; intros tape; [done|].
  cbn [randID_loop]. destruct (RandByte 2 tape) as [[b tape']|]; [|done].
  cbn [mbind option_bind]. destruct (BigEndian.Uint16 b) as [v|]; [|done].
  cbn [mbind option_bind].
  destruct (initiator && bool_decide (v `mod` 2 = 0)
            || negb initiator && bool_decide (v `mod` 2 ≠ 0)) eqn:Hc.
  - intros [= <- <-]. pose proof (Z.mod_pos_bound v 2 eq_refl).
    destruct initiator; cbn in Hc.
    + rewrite orb_false_r in Hc. by apply bool_decide_eq_true in Hc.
    + apply bool_decide_eq_true in Hc. lia.
  - apply IH.
Qed.

(** One draw: the next two bytes decide. *)
Lemma randID_loop_step (fuel : nat) (initiator : bool) (b0 b1 : Z) (rest : RandTape) :
  randID_loop (S fuel) initiator (b0 :: b1 :: rest)
  = if initiator && bool_decide (draw_value (b0, b1) `mod` 2 = 0)
       || negb initiator && bool_decide (draw_value (b0, b1) `mod` 2 ≠ 0)
    then Some (draw_value (b0, b1), rest)
    else randID_loop fuel initiator rest.
Proof. reflexivity. Qed.

Lemma draw_bytes_length (draws : list (Z * Z)) :
  (length draws ≤ length (draw_bytes draws))%nat.
Proof.
  unfold draw_bytes. induction draws as [|p l IH]; cbn [flat_map length app]; lia.
Qed.

Lemma randID_loop_returns (initiator : bool) (skipped : list (Z * Z)) (b0 b1 : Z)
    (rest : RandTape) (fuel : nat) :
  Forall (λ p, draw_value p `mod` 2 = (if initiator then 1 else 0)) skipped →
  draw_value (b0, b1) `mod` 2 = (if initiator then 0 else 1) →
  (length skipped < fuel)%nat →
  randID_loop fuel initiator (draw_bytes skipped ++ b0 :: b1 :: rest)
  = Some (draw_value (b0, b1), rest).
Proof.
  intros Hskip Hgood. revert fuel.
  induction Hskip as [|[c0 c1] skipped Hc Hskip IH]; intros fuel Hf.
  - destruct fuel as [|fuel]; [simpl in Hf; lia|].
    cbn [draw_bytes flat_map app]. rewrite randID_loop_step, Hgood. by destruct initiator.
  - destruct fuel as [|fuel]; [simpl in Hf; lia|].
    unfold draw_bytes. cbn [flat_map app fst snd]. fold (draw_bytes skipped).
    rewrite randID_loop_step, Hc.
    replace (initiator && bool_decide ((if initiator then 1 else 0) = 0)
             || negb initiator && bool_decide ((if initiator then 1 else 0) ≠ 0))
      with false by (by destruct initiator).
    apply IH. cbn [length] in Hf. lia.
Qed.

(** [randID] returns as soon as the entropy source delivers a draw of the
    wanted parity: the draws [skipped] before it are of the other parity. *)
Lemma randID_returns (initiator : bool) (skipped : list (Z * Z)) (b0 b1 : Z) (rest : RandTape) :
  Forall (λ p, draw_value p `mod` 2 = (if initiator then 1 else 0)) skipped →
  draw_value (b0, b1) `mod` 2 = (if initiator then 0 else 1) →
  randID initiator (draw_bytes skipped ++ b0 :: b1 :: rest)
  = Some (draw_value (b0, b1), rest).
Proof.
  intros Hskip Hgood. unfold randID. apply randID_loop_returns; [done..|].
  rewrite length_app. cbn [length]. pose proof (draw_bytes_length skipped). lia.
Qed.

(** [C4] Stream id parity.  An id that [randID(true)] returns is even, one
    that [randID(false)] returns is odd; [isInitiatorID(id)] holds exactly
    when [id % 2 == 0]; so [isInitiatorID] is true of the ids of
    [randID(true)] and false of those of [randID(false)]. *)
Theorem randID_parity (initiator : bool) (tape rest : RandTape) (id : Z) :
  randID initiator tape = Some (id, rest) →
  id `mod` 2 = (if initiator then 0 else 1)
  ∧ isInitiatorID id = initiator
  ∧ (∀ x : Z, isInitiatorID x = true ↔ x `mod` 2 = 0).
Proof.
  intros Hr. apply randID_loop_parity in Hr. split; [exact Hr|]. split.
  - unfold isInitiatorID. rewrite Hr. by destruct initiator.
  - apply isInitiatorID_spec.
Qed.

Lemma randID_parity_witness :
  (0x1234 `mod` 2 = 0 ∧ isInitiatorID 0x1234 = true
   ∧ (∀ x : Z, isInitiatorID x = true ↔ x `mod` 2 = 0))
  ∧ (0xABCD `mod` 2 = 1 ∧ isInitiatorID 0xABCD = false
     ∧ (∀ x : Z, isInitiatorID x = true ↔ x `mod` 2 = 0)).
Proof.
  split.
  - apply (randID_parity true [0xAB; 0xCD; 0x12; 0x34; 0x56] [0x56] 0x1234). reflexivity.
  - apply (randID_parity false [0x00; 0x02; 0xAB; 0xCD] [] 0xABCD). reflexivity.
Defined.

(** ** Port manager *)

Section port_manager.
Context `{Rand R} {L : Type}.
Implicit Types (pm : PortManager R L) (port : Z).

Lemma Listener_ok pm port :
  (PortManager_Listener pm port).2 = bool_decide (is_Some (pm_listeners pm !! port)).
Proof.
  unfold PortManager_Listener. destruct (pm_listeners pm !! port) as [l|] eqn:Hl; cbn [snd].
  - symmetry. apply bool_decide_eq_true_2. eauto.
  - symmetry. apply bool_decide_eq_false_2. by intros [? ?].
Qed.

Lemma randomEphemeralPort_spec pm :
  firstEphemeralPort ≤ (randomEphemeralPort pm).1 < lastEphemeralPort
  ∧ pm_listeners (randomEphemeralPort pm).2 = pm_listeners pm.
Proof.
  unfold randomEphemeralPort, firstEphemeralPort, lastEphemeralPort, to_uint16.
  pose proof (Intn_range (pm_rand pm) (65535 - 49152) eq_refl) as Hn.
  destruct (Intn (pm_rand pm) (65535 - 49152)) as [n r]. cbn in *.
  rewrite Z.mod_small by lia. split; [lia|done].
Qed.

Lemma NextEmptyEphemeralPort_free (fuel : nat) pm pm' port :
  NextEmptyEphemeralPort fuel pm = Some (port, pm') →
  firstEphemeralPort ≤ port < lastEphemeralPort
  ∧ pm_listeners pm !! port = None
  ∧ pm_listeners pm' = pm_listeners pm.
Proof.
  revert pm. induction fuel as [|fuel IH]; intros pm; [done|].
  cbn [NextEmptyEphemeralPort].
  destruct (randomEphemeralPort_spec pm) as [Hrange Hsame].
  destruct (randomEphemeralPort pm) as [q pm1]. cbn [fst snd] in *.
  rewrite Listener_ok. case_bool_decide as Hreg.
  - intros Hrec. destruct (IH pm1 Hrec) as (? & ? & ?). by rewrite <- Hsame.
  - intros [= <- <-]. split; [done|]. split; [|done].
    rewrite <- Hsame. destruct (pm_listeners pm1 !! q) eqn:Hq; [|done].
    destruct Hreg. eauto.
Qed.

(** The loop gives up only when every draw hit a registered port. *)
Lemma NextEmptyEphemeralPort_None (fuel : nat) pm :
  NextEmptyEphemeralPort fuel pm = None
  ↔ Forall (λ port, is_Some (pm_listeners pm !! port)) (ephemeral_draws fuel pm).
Proof.
  revert pm. induction fuel as [|fuel IH]; intros pm.
  - cbn. split; [constructor|done].
  - cbn [NextEmptyEphemeralPort ephemeral_draws].
    destruct (randomEphemeralPort_spec pm) as [_ Hsame].
    destruct (randomEphemeralPort pm) as [q pm1]. cbn [fst snd] in *.
    rewrite Listener_ok, Hsame. case_bool_decide as Hreg.
    + rewrite IH, Hsame. split; [by constructor|by inversion 1].
    + split; [done|]. by inversion 1.
Qed.

(** [C5] Ephemeral port allocation.  A port that [NextEmptyEphemeralPort]
    returns lies in [[49152, 65535)] and is not registered in the
    listeners map, which the call leaves as it was; so it differs from
    every registered port [p], in particular from the port of a preceding
    [AddListener(l, p)]. *)
Theorem NextEmptyEphemeralPort_spec (fuel : nat) pm pm0 pm' port (l : L) (p : Z) :
  NextEmptyEphemeralPort fuel pm = Some (port, pm') →
  firstEphemeralPort ≤ port < lastEphemeralPort
  ∧ pm_listeners pm !! port = None
  ∧ (PortManager_Listener pm port).2 = false
  ∧ pm_listeners pm' = pm_listeners pm
  ∧ (is_Some (pm_listeners pm !! p) → port ≠ p)
  ∧ (pm = PortManager_AddListener pm0 l p → port ≠ p).
Proof.
  intros Hnext. destruct (NextEmptyEphemeralPort_free _ _ _ _ Hnext) as (Hrange & Hfree & Hsame).
  split; [done|]. split; [done|]. split.
  { rewrite Listener_ok. apply bool_decide_eq_false. rewrite Hfree. by intros [? ?]. }
  split; [done|]. split.
  - intros [x Hx] ->. congruence.
  - intros -> ->. cbn in Hfree. by rewrite lookup_insert_eq in Hfree.
Qed.

End port_manager.

Lemma NextEmptyEphemeralPort_spec_witness :
  let pm0 : PortManager Z string := mkPortManager 0 ∅ in
  let pm := PortManager_AddListener pm0 "listener"%string 49152 in
  let pm' := (@randomEphemeralPort Z lcg_Rand string (@randomEphemeralPort Z lcg_Rand string pm).2).2 in
  firstEphemeralPort ≤ 61497 < lastEphemeralPort
  ∧ pm_listeners pm !! 61497 = None
  ∧ (PortManager_Listener pm 61497).2 = false
  ∧ pm_listeners pm' = pm_listeners pm
  ∧ (is_Some (pm_listeners pm !! 49152) → 61497 ≠ 49152)
  ∧ (pm = PortManager_AddListener pm0 "listener"%string 49152 → 61497 ≠ 49152).
Proof.
  intros pm0 pm pm'.
  apply (@NextEmptyEphemeralPort_spec Z lcg_Rand string 2 pm pm0 pm' 61497 "listener"%string 49152).
  vm_compute. reflexivity.
Defined.

(** ** Transport manager *)

Section transport_manager.
Import transport.
Context `{Env E}.



(** A run of [DeleteTransport]: the events in order, the result, the state. *)
Lemma DeleteTransport_exec (id : UUID) (s : State) (env : E) :
  let tr := tm_transports s !! id in
  ∃ (warn : list raised) (e : option error) (env' : E),
    exec (DeleteTransport id s) env
    = (Raised (EvMTClose tr)
         :: Raised (EvUpdateStatuses Background [mkStatus id false])
         :: warn
         ++ Raised (EvLog Info "Unregistered transport %s" [ArgUUID id])
         :: match tr with
            | Some _ => [Raised (EvMTClose tr)]
            | None => []
            end,
       Some (e, set_transports s (delete id (tm_transports s))), env')
    ∧ (warn = []
       ∨ ∃ err, warn = [Raised (EvLog Warn "Failed to change transport status: %s" [ArgErr err])]).
Proof.
  intros tr. unfold DeleteTransport. fold tr.
  unfold mbind, prog_bind, Infof, Warnf, call. cbn [bind exec].
  destruct (respond _ (EvMTClose tr) env) as [c1 env1].
  destruct (respond _ (EvUpdateStatuses Background [mkStatus id false]) env1) as [r env2].
  destruct r as [err|]; cbn [bind exec].
  - destruct (respond _ (EvLog Warn "Failed to change transport status: %s" [ArgErr err]) env2)
      as [[] env3].
    destruct (respond _ (EvLog Info "Unregistered transport %s" [ArgUUID id]) env3) as [[] env4].
    destruct tr as [p|]; cbn [bind exec].
    + destruct (respond _ (EvMTClose (Some p)) env4) as [e env5].
      eexists [_], e, env5. split; [reflexivity|]. right. by eexists.
    + eexists [_], None, env4. split; [reflexivity|]. right. by eexists.
  - destruct (respond _ (EvLog Info "Unregistered transport %s" [ArgUUID id]) env2) as [[] env4].
    destruct tr as [p|]; cbn [bind exec].
    + destruct (respond _ (EvMTClose (Some p)) env4) as [e env5].
      eexists [], e, env5. split; [reflexivity|]. by left.
    + eexists [], None, env4. split; [reflexivity|]. by left.
Qed.

(** [C7] [DeleteTransport] closes the looked-up transport before any nil
    check.  For every id it removes the entry from the transports map and
    then calls [Close] on what the lookup gave, nil or not; the status
    update and the log lines follow; only then comes the nil check.  For an
    id that is not in the map [Close] is called once, on the nil transport;
    for an id that is in the map [Close] is called twice on the same
    transport. *)
Theorem DeleteTransport_closes_before_nil_check (id : UUID) (s : State) (env : E) :
  let tr := tm_transports s !! id in
  let t := trace_of (DeleteTransport id s) env in
  ∃ (warn : list raised) (e : option error) (s' : State),
    t = Raised (EvMTClose tr)
          :: Raised (EvUpdateStatuses Background [mkStatus id false])
          :: warn
          ++ Raised (EvLog Info "Unregistered transport %s" [ArgUUID id])
          :: match tr with
             | Some _ => [Raised (EvMTClose tr)]
             | None => []
             end
    ∧ (warn = []
       ∨ ∃ err, warn = [Raised (EvLog Warn "Failed to change transport status: %s" [ArgErr err])])
    ∧ result_of (DeleteTransport id s) env = Some (e, s')
    ∧ tm_transports s' = delete id (tm_transports s)
    ∧ tm_transports s' !! id = None
    ∧ head (mt_closes t) = Some tr
    ∧ mt_closes t = match tr with
                    | Some p => [Some p; Some p]
                    | None => [None]
                    end.
Proof.
  intros tr t. subst t. unfold trace_of, result_of.
  destruct (DeleteTransport_exec id s env) as (warn & e & env' & Hexec & Hwarn).
  fold tr in Hexec. rewrite Hexec. cbn [fst snd].
  exists warn, e, (set_transports s (delete id (tm_transports s))).
  split; [done|]. split; [done|]. split; [done|]. split; [done|].
  split; [apply lookup_delete_eq|].
  destruct Hwarn as [->|[err ->]]; destruct tr; done.
Qed.








End transport_manager.


Example manageTransport_reconnect :
  transport.exec (H := script_Env)
    (transport.manageTransport 2 transport.Background toy_mTr toy_factory toy_remote true false toy_state) toy_script
  = ([transport.Raised
        (transport.EvLog transport.Info "Spawned manageTransport for mTr.ID: %v. mgrQty: %v"
           [transport.ArgUUID 42; transport.ArgInt 2]);
      transport.Raised (transport.EvSelect toy_mTr);
      transport.Raised (transport.EvMTIsClosing toy_mTr);
      transport.Raised
        (transport.EvLog transport.Info "Transport %s failed with error: %s. Re-dialing..."
           [transport.ArgUUID 42; transport.ArgErr EOF]);
      transport.Raised transport.EvTmIsClosing;
      transport.Raised (transport.EvFactoryDial toy_factory transport.Background toy_remote);
      transport.Raised (transport.EvInitiatorHandshake true toy_tr transport.Minute);
      transport.Raised
        (transport.EvLog transport.Info "Updating transport %s" [transport.ArgUUID 42]);
      transport.Raised (transport.EvMTUpdateTransport toy_mTr toy_tr);
      transport.Raised (transport.EvSelect toy_mTr);
      transport.Raised
        (transport.EvLog transport.Info "manageTransport exit for %v. mgrQty: %v"
           [transport.ArgUUID 42; transport.ArgInt 1])],
     Some (true, toy_state),
     mkScript [] false false (inl toy_tr)
       (inl (transport.mkEntry 42 ([2], toy_remote) "messaging" true)) None).
Proof. vm_compute. reflexivity. Qed.

Example DeleteTransport_present :
  transport.exec (H := script_Env) (transport.DeleteTransport 42 toy_state) toy_script
  = ([transport.Raised (transport.EvMTClose (Some toy_mTr));
      transport.Raised
        (transport.EvUpdateStatuses transport.Background [transport.mkStatus 42 false]);
      transport.Raised
        (transport.EvLog transport.Info "Unregistered transport %s" [transport.ArgUUID 42]);
      transport.Raised (transport.EvMTClose (Some toy_mTr))],
     Some (None, transport.set_transports toy_state ∅), toy_script).
Proof. vm_compute. reflexivity. Qed.

Example DeleteTransport_absent :
  transport.exec (H := script_Env) (transport.DeleteTransport 99 toy_state) toy_script
  = ([transport.Raised (transport.EvMTClose None);
      transport.Raised
        (transport.EvUpdateStatuses transport.Background [transport.mkStatus 99 false]);
      transport.Raised
        (transport.EvLog transport.Info "Unregistered transport %s" [transport.ArgUUID 99])],
     Some (None, toy_state), toy_script).
Proof. vm_compute. reflexivity. Qed.

Example NextEmptyEphemeralPort_retries :
  let pm : PortManager Z string :=
    PortManager_AddListener (mkPortManager 0 ∅) "listener"%string 49152 in
  fst <$> @NextEmptyEphemeralPort Z lcg_Rand string 1 pm = None
  ∧ fst <$> @NextEmptyEphemeralPort Z lcg_Rand string 2 pm = Some 61497.
Proof. split; vm_compute; reflexivity. Qed.
